(** * Verification of the RMA_X header generator

    Shallow embedding of [utils/header_files_gen/RMA_X.py]: the type table,
    the four declaration templates, the four family block builders, the
    document assembler and the emitter, followed by the properties of the
    generated header. *)

From stdpp Require Import gmap strings list.
From Stdlib Require Import Ascii.

Local Open Scope stdpp_scope.

(** ** Axis tables *)

(** The module-level list [types]: (C spelling, short name), in table order. *)
Definition types : list (string * string) :=
  [ ("float", "float");
    ("double", "double");
    ("char", "char");
    ("signed char", "schar");
    ("short", "short");
    ("int", "int");
    ("long", "long");
    ("long long", "longlong");
    ("unsigned char", "uchar");
    ("unsigned short", "ushort");
    ("unsigned int", "uint");
    ("unsigned long", "ulong");
    ("unsigned long long", "ulonglong") ].

(** The escape [\n] of the Python literals. *)
Definition nl : string := String (ascii_of_nat 10) EmptyString.

(** ** Declaration templates

    Each f-string is the concatenation of its literal pieces and its
    substitution fields, in the order of the source. *)

Definition put_api_x (GRAN T TNAME : string) : string :=
  "__device__ ATTR_NO_INLINE void rocshmem_ctx_" +:+ TNAME +:+ "_put_" +:+ GRAN +:+ "(" +:+ nl +:+
  "    rocshmem_ctx_t ctx, " +:+ T +:+ " *dest, const " +:+ T +:+ " *source," +:+ nl +:+
  "    size_t nelems, int pe);" +:+ nl +:+
  "__device__ ATTR_NO_INLINE void rocshmem_" +:+ TNAME +:+ "_put_" +:+ GRAN +:+ "(" +:+ nl +:+
  "    " +:+ T +:+ " *dest, const " +:+ T +:+ " *source, size_t nelems, int pe);" +:+ nl +:+ nl.

Definition get_api_x (GRAN T TNAME : string) : string :=
  "__device__ ATTR_NO_INLINE void rocshmem_ctx_" +:+ TNAME +:+ "_get_" +:+ GRAN +:+ "(" +:+ nl +:+
  "    rocshmem_ctx_t ctx, " +:+ T +:+ " *dest, const " +:+ T +:+ " *source," +:+ nl +:+
  "    size_t nelems, int pe);" +:+ nl +:+
  "__device__ ATTR_NO_INLINE void rocshmem_" +:+ TNAME +:+ "_get_" +:+ GRAN +:+ "(" +:+ nl +:+
  "    " +:+ T +:+ " *dest, const " +:+ T +:+ " *source, size_t nelems, int pe);" +:+ nl +:+ nl.

Definition put_nbi_api_x (GRAN T TNAME : string) : string :=
  "__device__ ATTR_NO_INLINE void rocshmem_ctx_" +:+ TNAME +:+ "_put_nbi_" +:+ GRAN +:+ "(" +:+ nl +:+
  "    rocshmem_ctx_t ctx, " +:+ T +:+ " *dest, const " +:+ T +:+ " *source," +:+ nl +:+
  "    size_t nelems, int pe);" +:+ nl +:+
  "__device__ ATTR_NO_INLINE void rocshmem_" +:+ TNAME +:+ "_put_nbi_" +:+ GRAN +:+ "(" +:+ nl +:+
  "    " +:+ T +:+ " *dest, const " +:+ T +:+ " *source, size_t nelems, int pe);" +:+ nl +:+ nl.

Definition get_nbi_api_x (GRAN T TNAME : string) : string :=
  "__device__ ATTR_NO_INLINE void rocshmem_ctx_" +:+ TNAME +:+ "_get_nbi_" +:+ GRAN +:+ "(" +:+ nl +:+
  "    rocshmem_ctx_t ctx, " +:+ T +:+ " *dest, const " +:+ T +:+ " *source," +:+ nl +:+
  "    size_t nelems, int pe);" +:+ nl +:+
  "__device__ ATTR_NO_INLINE void rocshmem_" +:+ TNAME +:+ "_get_nbi_" +:+ GRAN +:+ "(" +:+ nl +:+
  "    " +:+ T +:+ " *dest, const " +:+ T +:+ " *source, size_t nelems, int pe);" +:+ nl +:+ nl.

(** ** Documentation blocks

    The eight triple-quoted literals of the family block builders, named
    after the builder and the granularity they introduce.  A Python literal
    keeps the unknown escape [\p] as a backslash followed by [p]; its final
    [\n] is the line break before the closing quote here. *)

(** First literal of [generate_put_api_x]. *)
Definition put_wave_doc : string := "
/**
 * @brief Writes contiguous data of \p nelems elements from \p source on the
 * calling PE to \p dest at \p pe. The caller will block until the operation
 * completes locally (it is safe to reuse \p source). The caller must
 * call into rocshmem_quiet() if remote completion is required.
 *
 * This function can be called from divergent control paths at per-wave
 * granularity. However, all threads in a wave must collectively participate
 * in the call using the same arguments
 *
 * @param[in] ctx    Context with which to perform this operation.
 * @param[in] dest   Destination address. Must be an address on the symmetric
 *                   heap.
 * @param[in] source Source address. Must be an address on the symmetric heap.
 * @param[in] nelems Size of the transfer in number of elements.
 * @param[in] pe     PE of the remote process.
 *
 * @return void.
 */
".

(** Second literal of [generate_put_api_x]. *)
Definition put_wg_doc : string := "
/**
 * @brief Writes contiguous data of \p nelems elements from \p source on the
 * calling PE to \p dest at \p pe. The caller will block until the operation
 * completes locally (it is safe to reuse \p source). The caller must
 * call into rocshmem_quiet() if remote completion is required.
 *
 * This function can be called from divergent control paths at per-workgroup
 * (WG) granularity. However, All threads in a WG must collectively participate
 * in the call using the same arguments.
 *
 * @param[in] ctx    Context with which to perform this operation.
 * @param[in] dest   Destination address. Must be an address on the symmetric
 *                   heap.
 * @param[in] source Source address. Must be an address on the symmetric heap.
 * @param[in] nelems Size of the transfer in number of elements.
 * @param[in] pe     PE of the remote process.
 *
 * @return void.
 */
".

(** First literal of [generate_get_api_x]. *)
Definition get_wave_doc : string := "
/**
 * @brief Reads contiguous data of \p nelems elements from \p source on \p pe
 * to \p dest on the calling PE. The calling work-group will block until the
 * operation completes (data has been placed in \p dest).
 *
 * This function can be called from divergent control paths at per-wave
 * granularity. However,  all threads in the wave must participate in the
 * call using the same parameters
 *
 * @param[in] ctx     Context with which to perform this operation.
 * @param[in] dest    Destination address. Must be an address on the symmetric
 *                    heap.
 * @param[in] source  Source address. Must be an address on the symmetric heap.
 * @param[in] nelems  Size of the transfer in bytes.
 * @param[in] pe      PE of the remote process.
 *
 * @return void.
 */
".

(** Second literal of [generate_get_api_x]. *)
Definition get_wg_doc : string := "
/**
 * @brief Reads contiguous data of \p nelems elements from \p source on \p pe
 * to \p dest on the calling PE. The calling work-group will block until the
 * operation completes (data has been placed in \p dest).
 *
 * This function can be called from divergent control paths at per-workgroup
 * granularity. However,  all threads in the workgroup must participate in
 * the call using the same parameters
 *
 * @param[in] ctx     Context with which to perform this operation.
 * @param[in] dest    Destination address. Must be an address on the symmetric
 *                    heap.
 * @param[in] source  Source address. Must be an address on the symmetric heap.
 * @param[in] nelems  Size of the transfer in bytes.
 * @param[in] pe      PE of the remote process.
 *
 * @return void.
 */
".

(** First literal of [generate_put_nbi_api_x]. *)
Definition put_nbi_wave_doc : string := "
/**
 * @brief Writes contiguous data of \p nelems elements from \p source on the
 * calling PE to \p dest on \p pe. The operation is not blocking. The caller
 * will return as soon as the request is posted. The caller must call
 * rocshmem_quiet() on the same context if completion notification is
 * required.
 *
 * This function can be called from divergent control paths at per-wave
 * granularity. However, all threads in the wave must call in with the same
 * arguments.
 *
 * @param[in] ctx     Context with which to perform this operation.
 * @param[in] dest    Destination address. Must be an address on the symmetric
                      heap.
 * @param[in] source  Source address. Must be an address on the symmetric heap.
 * @param[in] nelems  Size of the transfer in bytes.
 * @param[in] pe      PE of the remote process.
 *
 * @return void.
 */
".

(** Second literal of [generate_put_nbi_api_x]. *)
Definition put_nbi_wg_doc : string := "
/**
 * @brief Writes contiguous data of \p nelems elements from \p source on the
 * calling PE to \p dest on \p pe. The operation is not blocking. The caller
 * will return as soon as the request is posted. The caller must call
 * rocshmem_quiet() on the same context if completion notification is
 * required.
 *
 * This function can be called from divergent control paths at per-workgroup
 * granularity. However, all threads in the WG must call in with the sameo
 * arguments.
 *
 * @param[in] ctx     Context with which to perform this operation.
 * @param[in] dest    Destination address. Must be an address on the symmetric
                      heap.
 * @param[in] source  Source address. Must be an address on the symmetric heap.
 * @param[in] nelems  Size of the transfer in bytes.
 * @param[in] pe      PE of the remote process.
 *
 * @return void.
 */
".

(** First literal of [generate_get_nbi_api_x]. *)
Definition get_nbi_wave_doc : string := "
/**
 * @brief Reads contiguous data of \p nelems elements from \p source on \p pe
 * to \p dest on the calling PE. The operation is not blocking. The caller
 * will return as soon as the request is posted. The caller must call
 * rocshmem_quiet() on the same context if completion notification is
 * required.
 *
 * This function can be called from divergent control paths at per-wave
 * granularity. However, all threads in the wave must call in with the same
 * arguments.
 *
 * @param[in] ctx     Context with which to perform this operation.
 * @param[in] dest    Destination address. Must be an address on the symmetric
 *                    heap.
 * @param[in] source  Source address. Must be an address on the symmetric heap.
 * @param[in] nelems  Size of the transfer in bytes.
 * @param[in] pe      PE of the remote process.
 *
 * @return void.
 */
".

(** Second literal of [generate_get_nbi_api_x]. *)
Definition get_nbi_wg_doc : string := "
/**
 * @brief Reads contiguous data of \p nelems elements from \p source on \p pe
 * to \p dest on the calling PE. The operation is not blocking. The caller
 * will return as soon as the request is posted. The caller must call
 * rocshmem_quiet() on the same context if completion notification is
 * required.
 *
 * This function can be called from divergent control paths at per-workgroup
 * granularity. However, all threads in the WG must call in with the same
 * arguments.
 *
 * @param[in] ctx     Context with which to perform this operation.
 * @param[in] dest    Destination address. Must be an address on the symmetric
 *                    heap.
 * @param[in] source  Source address. Must be an address on the symmetric heap.
 * @param[in] nelems  Size of the transfer in bytes.
 * @param[in] pe      PE of the remote process.
 *
 * @return void.
 */
".

(** ** Family block builders

    [expanded_code += t(...)] inside [for type_, tname_ in types] is a left
    fold over the table that appends to the accumulator. *)

Definition emit_types (api_x : string -> string -> string -> string)
    (GRAN : string) (expanded_code : string) : string :=
  fold_left (fun acc '(type_, tname_) => acc +:+ api_x GRAN type_ tname_)
            types expanded_code.

Definition generate_put_api_x : string :=
  let expanded_code := put_wave_doc in
  let expanded_code := emit_types put_api_x "wave" expanded_code in
  let expanded_code := expanded_code +:+ put_wg_doc in
  let expanded_code := emit_types put_api_x "wg" expanded_code in
  expanded_code.

Definition generate_get_api_x : string :=
  let expanded_code := get_wave_doc in
  let expanded_code := emit_types get_api_x "wave" expanded_code in
  let expanded_code := expanded_code +:+ get_wg_doc in
  let expanded_code := emit_types get_api_x "wg" expanded_code in
  expanded_code.

Definition generate_put_nbi_api_x : string :=
  let expanded_code := put_nbi_wave_doc in
  let expanded_code := emit_types put_nbi_api_x "wave" expanded_code in
  let expanded_code := expanded_code +:+ put_nbi_wg_doc in
  let expanded_code := emit_types put_nbi_api_x "wg" expanded_code in
  expanded_code.

Definition generate_get_nbi_api_x : string :=
  let expanded_code := get_nbi_wave_doc in
  let expanded_code := emit_types get_nbi_api_x "wave" expanded_code in
  let expanded_code := expanded_code +:+ get_nbi_wg_doc in
  let expanded_code := emit_types get_nbi_api_x "wg" expanded_code in
  expanded_code.

(** ** Document assembler *)

(** The literal appended to the banner in [generate_RMA_X_header]. *)
Definition guard_open : string := "
#ifndef LIBRARY_INCLUDE_ROCSHMEM_RMA_X_HPP
#define LIBRARY_INCLUDE_ROCSHMEM_RMA_X_HPP

namespace rocshmem {
".

(** The literal appended after the four family blocks. *)
Definition guard_close : string := "
}  // namespace rocshmem

#endif  // LIBRARY_INCLUDE_ROCSHMEM_RMA_X_HPP
".

(** The value of [expanded_code] when [generate_RMA_X_header] hands it to
    [write_to_file]. *)
Definition header_content (copyright : string) : string :=
  let expanded_code := copyright in
  let expanded_code := expanded_code +:+ guard_open in
  let expanded_code := expanded_code +:+
    (generate_put_api_x +:+
     generate_get_api_x +:+
     generate_put_nbi_api_x +:+
     generate_get_nbi_api_x) in
  let expanded_code := expanded_code +:+ guard_close in
  expanded_code.

(** ** Operation families and granularities

    The source has one template and one block builder per family and passes
    the granularity as its tag; the two enumerations index them. *)

Inductive family := Put | Get | PutNonBlocking | GetNonBlocking.
Inductive granularity := PerWave | PerWorkgroup.

Definition families : list family := [Put; Get; PutNonBlocking; GetNonBlocking].
Definition granularities : list granularity := [PerWave; PerWorkgroup].

Definition gran_tag (g : granularity) : string :=
  match g with PerWave => "wave" | PerWorkgroup => "wg" end.

Definition family_fragment (f : family) : string :=
  match f with
  | Put => "put" | Get => "get"
  | PutNonBlocking => "put_nbi" | GetNonBlocking => "get_nbi"
  end.

Definition api_x (f : family) : string -> string -> string -> string :=
  match f with
  | Put => put_api_x | Get => get_api_x
  | PutNonBlocking => put_nbi_api_x | GetNonBlocking => get_nbi_api_x
  end.

Definition family_block (f : family) : string :=
  match f with
  | Put => generate_put_api_x | Get => generate_get_api_x
  | PutNonBlocking => generate_put_nbi_api_x
  | GetNonBlocking => generate_get_nbi_api_x
  end.

Definition family_doc (f : family) (g : granularity) : string :=
  match f, g with
  | Put, PerWave => put_wave_doc
  | Put, PerWorkgroup => put_wg_doc
  | Get, PerWave => get_wave_doc
  | Get, PerWorkgroup => get_wg_doc
  | PutNonBlocking, PerWave => put_nbi_wave_doc
  | PutNonBlocking, PerWorkgroup => put_nbi_wg_doc
  | GetNonBlocking, PerWave => get_nbi_wave_doc
  | GetNonBlocking, PerWorkgroup => get_nbi_wg_doc
  end.

(** The declaration unit of one (family, granularity, type) triple, as the
    block builders request it. *)
Definition declaration_unit (f : family) (g : granularity) (ty : string * string) : string :=
  api_x f (gran_tag g) ty.1 ty.2.

(** ** Reading the generated text as C

    A small lexer for the emitted C: identifiers, single character
    punctuation, with white space, block comments and line comments
    skipped.  It is the observation through which prototypes and declared
    symbols are read back from the generated text. *)

Inductive lex_mode := LCode | LSlash | LBlock | LBlockStar | LLine.

Record lex_state := LexState {
  lx_mode : lex_mode;
  lx_cur : list ascii;      (* identifier being read, last character first *)
  lx_out : list string      (* tokens read so far, last token first *)
}.

Definition is_ident_char (c : ascii) : bool :=
  let n := N_of_ascii c in
  ((48 <=? n) && (n <=? 57) || (65 <=? n) && (n <=? 90) ||
   (97 <=? n) && (n <=? 122) || (n =? 95))%N.

Definition is_space_char (c : ascii) : bool :=
  let n := N_of_ascii c in
  ((n =? 32) || (n =? 10) || (n =? 9) || (n =? 13))%N.

Definition lx_flush (cur : list ascii) (out : list string) : list string :=
  match cur with
  | [] => out
  | _ => String.string_of_list_ascii (rev cur) :: out
  end.

Definition lex_code (cur : list ascii) (out : list string) (c : ascii) : lex_state :=
  if is_ident_char c then LexState LCode (c :: cur) out
  else
    let out := lx_flush cur out in
    if Ascii.eqb c "/" then LexState LSlash [] out
    else if is_space_char c then LexState LCode [] out
    else LexState LCode [] (String c EmptyString :: out).

Definition lex_step (st : lex_state) (c : ascii) : lex_state :=
  match lx_mode st with
  | LCode => lex_code (lx_cur st) (lx_out st) c
  | LSlash =>
      if Ascii.eqb c "*" then LexState LBlock [] (lx_out st)
      else if Ascii.eqb c "/" then LexState LLine [] (lx_out st)
      else lex_code [] ("/" :: lx_out st) c
  | LBlock =>
      if Ascii.eqb c "*" then LexState LBlockStar [] (lx_out st) else st
  | LBlockStar =>
      if Ascii.eqb c "/" then LexState LCode [] (lx_out st)
      else if Ascii.eqb c "*" then st
      else LexState LBlock [] (lx_out st)
  | LLine =>
      if Ascii.eqb c (ascii_of_nat 10) then LexState LCode [] (lx_out st) else st
  end.

Fixpoint lex_run (s : string) (st : lex_state) : lex_state :=
  match s with
  | EmptyString => st
  | String c s' => lex_run s' (lex_step st c)
  end.

Definition lex_start : lex_state := LexState LCode [] [].

Definition lex_finish (st : lex_state) : list string :=
  rev (match lx_mode st with
       | LSlash => "/" :: lx_out st
       | _ => lx_flush (lx_cur st) (lx_out st)
       end).

Definition tokens (s : string) : list string := lex_finish (lex_run s lex_start).

Definition is_identifier (t : string) : bool :=
  match t with
  | EmptyString => false
  | String c _ => is_ident_char c
  end.

(** The identifiers that stand immediately before an opening parenthesis:
    in a sequence of prototypes, the declared function names. *)
Fixpoint declared_symbols (toks : list string) : list string :=
  match toks with
  | [] => []
  | t :: rest =>
      match rest with
      | p :: _ =>
          if is_identifier t && String.eqb p "(" then t :: declared_symbols rest
          else declared_symbols rest
      | [] => []
      end
  end.

(** ** The naming convention and the prototype shape, as specified *)

(** [rocshmem_ctx_<shortName>_<familyFragment>_<granularityTag>] *)
Definition ctx_symbol (f : family) (g : granularity) (ty : string * string) : string :=
  "rocshmem_ctx_" +:+ ty.2 +:+ "_" +:+ family_fragment f +:+ "_" +:+ gran_tag g.

(** [rocshmem_<shortName>_<familyFragment>_<granularityTag>] *)
Definition default_symbol (f : family) (g : granularity) (ty : string * string) : string :=
  "rocshmem_" +:+ ty.2 +:+ "_" +:+ family_fragment f +:+ "_" +:+ gran_tag g.

Definition symbol_pair (f : family) (g : granularity) (ty : string * string) : list string :=
  [ctx_symbol f g ty; default_symbol f g ty].

(** A prototype [__device__ ATTR_NO_INLINE void name(params);] whose
    parameters are an optional context handle, then [T *dest],
    [const T *source], [size_t nelems] and [int pe]. *)
Definition prototype_tokens (with_ctx : bool) (name T : string) : list string :=
  ["__device__"; "ATTR_NO_INLINE"; "void"; name; "("] ++
  (if with_ctx then ["rocshmem_ctx_t"; "ctx"; ","] else []) ++
  tokens T ++ ["*"; "dest"; ","; "const"] ++ tokens T ++
  ["*"; "source"; ","; "size_t"; "nelems"; ","; "int"; "pe"; ")"; ";"].

(** The text of one declaration unit with the family fragment left open:
    what the four templates have in common. *)
Definition api_x_template (fragment GRAN T TNAME : string) : string :=
  "__device__ ATTR_NO_INLINE void rocshmem_ctx_" +:+ TNAME +:+ "_" +:+ fragment +:+ "_" +:+ GRAN +:+ "(" +:+ nl +:+
  "    rocshmem_ctx_t ctx, " +:+ T +:+ " *dest, const " +:+ T +:+ " *source," +:+ nl +:+
  "    size_t nelems, int pe);" +:+ nl +:+
  "__device__ ATTR_NO_INLINE void rocshmem_" +:+ TNAME +:+ "_" +:+ fragment +:+ "_" +:+ GRAN +:+ "(" +:+ nl +:+
  "    " +:+ T +:+ " *dest, const " +:+ T +:+ " *source, size_t nelems, int pe);" +:+ nl +:+ nl.

(** All (family, granularity, type) triples, in generation order. *)
Definition triple : Type := family * granularity * (string * string).

Definition all_triples : list triple :=
  f ← families; g ← granularities; ty ← types; [(f, g, ty)].

(** The two function names a declaration unit declares, read back from
    its text. *)
Definition declared_pair (t : triple) : list string :=
  declared_symbols (tokens (declaration_unit t.1.1 t.1.2 t.2)).

(** ** Boolean checks on lists of strings *)

Fixpoint mem_str (x : string) (l : list string) : bool :=
  match l with
  | [] => false
  | y :: l' => String.eqb x y || mem_str x l'
  end.

Fixpoint nodup_str (l : list string) : bool :=
  match l with
  | [] => true
  | x :: l' => negb (mem_str x l') && nodup_str l'
  end.

Fixpoint count_str (x : string) (l : list string) : nat :=
  match l with
  | [] => 0
  | y :: l' => (if String.eqb x y then 1 else 0) + count_str x l'
  end.

(** Number of positions of [s] at which [pat] starts. *)
Fixpoint count_sub (pat s : string) : nat :=
  match s with
  | EmptyString => if String.prefix pat s then 1 else 0
  | String _ s' => (if String.prefix pat s then 1 else 0) + count_sub pat s'
  end.

(** The four family blocks, as [generate_RMA_X_header] concatenates them. *)
Definition family_blocks : string :=
  generate_put_api_x +:+
  generate_get_api_x +:+
  generate_put_nbi_api_x +:+
  generate_get_nbi_api_x.

(** The function names declared by the text that follows the banner, in
    order of appearance. *)
Definition symbol_occurrences : list string :=
  declared_symbols (tokens (header_content "")).

(** The names of the whole cross product: families in their fixed order,
    per-wave before per-workgroup, types in table order, the
    context-qualified name before the default-context name. *)
Definition expected_symbols : list string :=
  f ← families; g ← granularities; ty ← types; symbol_pair f g ty.

Definition occurs_once (text : string) (toks : list string)
    (f : family) (g : granularity) (ty : string * string) : bool :=
  Nat.eqb (count_str (ctx_symbol f g ty) toks) 1 &&
  Nat.eqb (count_str (default_symbol f g ty) toks) 1 &&
  Nat.eqb (count_sub (ctx_symbol f g ty) text) 1 &&
  Nat.eqb (count_sub (default_symbol f g ty) text) 1.

Definition occurs_once_check (text : string) : bool :=
  let toks := tokens text in
  forallb (fun t : triple => occurs_once text toks t.1.1 t.1.2 t.2) all_triples.

(** One string per declared pair, for duplicate checks. *)
Definition pair_key (t : triple) : string := String.concat " " (declared_pair t).

(** Concatenation of a list of text units. *)
Definition concat_str (l : list string) : string := foldr String.append "" l.

(** The declaration units of one family at one granularity, in table order. *)
Definition declaration_units (f : family) (g : granularity) : string :=
  concat_str ((fun ty => declaration_unit f g ty) <$> types).

(** The names one family block is expected to declare, in order. *)
Definition family_symbols (f : family) : list string :=
  g ← granularities; ty ← types; symbol_pair f g ty.

Fixpoint string_drop (n : nat) (s : string) : string :=
  match n, s with
  | S n', String _ s' => string_drop n' s'
  | _, _ => s
  end.

(** Split at the first occurrence of [pat]: the text before it and the
    text after it. *)
Fixpoint split_on (pat s : string) : option (string * string) :=
  if String.prefix pat s then Some ("", string_drop (String.length pat) s)
  else match s with
       | EmptyString => None
       | String c s' =>
           match split_on pat s' with
           | Some (b, a) => Some (String c b, a)
           | None => None
           end
       end.

(** [between l r d]: the text before the first [l], the text from there to
    the next [r], and the text after that [r]. *)
Definition between (l r d : string) : option (string * string * string) :=
  match split_on l d with
  | Some (before, rest) =>
      match split_on r rest with
      | Some (middle, after) => Some (before, middle, after)
      | None => None
      end
  | None => None
  end.

Definition divergent_open : string :=
  "This function can be called from divergent control paths at ".
Definition sentence_close : string := "granularity.".
Definition params_open : string := "
 *
 * @param[in] ctx".

(** A documentation block around its divergent-control-paths sentence:
    (text before the sentence, phrase inside it, text after it). *)
Definition doc_sentence_split (d : string) : option (string * string * string) :=
  between divergent_open sentence_close d.

(** A documentation block around its granularity paragraph, which runs
    from the divergent-control-paths sentence to the blank comment line
    before the parameter list. *)
Definition doc_paragraph_split (d : string) : option (string * string * string) :=
  between divergent_open params_open d.

(** The two blocks of a family differ only inside the
    divergent-control-paths sentence. *)
Definition differ_only_in_phrase (f : family) : Prop :=
  exists before after pw pg,
    doc_sentence_split (family_doc f PerWave) = Some (before, pw, after) /\
    doc_sentence_split (family_doc f PerWorkgroup) = Some (before, pg, after).

(** Decision of [differ_only_in_phrase]. *)
Definition same_outside_sentence (f : family) : bool :=
  match doc_sentence_split (family_doc f PerWave),
        doc_sentence_split (family_doc f PerWorkgroup) with
  | Some (b1, _, a1), Some (b2, _, a2) => String.eqb b1 b2 && String.eqb a1 a2
  | _, _ => false
  end.

Fixpoint skip_spaces (s : string) : string :=
  match s with
  | String c s' => if Ascii.eqb c " " then skip_spaces s' else s
  | EmptyString => s
  end.

(** The description a documentation block gives of [nelems]: the rest of
    the [@param[in] nelems] line. *)
Definition nelems_description (d : string) : option string :=
  match between "@param[in] nelems" nl d with
  | Some (_, line, _) => Some (skip_spaces line)
  | None => None
  end.

Definition guard_macro : string := "LIBRARY_INCLUDE_ROCSHMEM_RMA_X_HPP".

(** The lexer is back in code, between tokens, at the end of [s]: [s] ends
    outside any comment and not inside an identifier. *)
Definition lex_clean (s : string) : bool :=
  match lex_run s lex_start with
  | LexState LCode [] _ => true
  | _ => false
  end.

(** The same lexer state with [base] as tokens read earlier. *)
Definition lx_shift (base : list string) (st : lex_state) : lex_state :=
  LexState (lx_mode st) (lx_cur st) (lx_out st ++ base).

(** What the declarations region must satisfy: it ends between tokens,
    holds no directive, brace or namespace keyword, and consists of 208
    prototypes. *)
Definition declarations_check (blocks : string) : bool :=
  let toks := tokens blocks in
  lex_clean blocks &&
  Nat.eqb (count_str "#" toks) 0 && Nat.eqb (count_str "{" toks) 0 &&
  Nat.eqb (count_str "}" toks) 0 && Nat.eqb (count_str "namespace" toks) 0 &&
  Nat.eqb (count_str ";" toks) 208 &&
  Nat.eqb (length (declared_symbols toks)) 208.

(** Raw occurrences of the guard directives, the namespace opener and the
    braces in a text. *)
Definition raw_structure_check (text : string) : bool :=
  Nat.eqb (count_sub ("#ifndef " +:+ guard_macro) text) 1 &&
  Nat.eqb (count_sub ("#define " +:+ guard_macro) text) 1 &&
  Nat.eqb (count_sub "#endif" text) 1 &&
  Nat.eqb (count_sub "#" text) 3 &&
  Nat.eqb (count_sub "namespace rocshmem {" text) 1 &&
  Nat.eqb (count_sub "{" text) 1 &&
  Nat.eqb (count_sub "}" text) 1.

(** [c] occurs in [s]. *)
Fixpoint has_char (c : ascii) (s : string) : bool :=
  match s with
  | EmptyString => false
  | String x s' => Ascii.eqb c x || has_char c s'
  end.

(** ** The emitter *)

Fixpoint string_take (n : nat) (s : string) : string :=
  match n, s with
  | S n', String c s' => String c (string_take n' s')
  | _, _ => EmptyString
  end.

Fixpoint ends_with_slash (s : string) : bool :=
  match s with
  | EmptyString => false
  | String c EmptyString => Ascii.eqb c "/"
  | String _ s' => ends_with_slash s'
  end.

(** [os.path.join] of two components (posixpath): an absolute second
    component replaces the first; otherwise the two are joined by one
    separator, unless the first is empty or already ends with one. *)
Definition os_path_join (a b : string) : string :=
  if String.prefix "/" b then b
  else if String.eqb a "" || ends_with_slash a then a +:+ b
  else a +:+ "/" +:+ b.

(** Errors of the runtime: [OSError] with its errno, and the [ValueError]
    of an operation on a closed file. *)
Inductive py_error := OSError (errno : nat) | ValueError.

(** An exception reaching a caller: the error raised last and, most recent
    first, the errors that were being handled when it was raised (its
    [__context__] chain). *)
Record py_exn := Exn { exn_error : py_error; exn_context : list py_error }.

Inductive outcome (A : Type) := Returned (a : A) | Raised (x : py_exn).
Arguments Returned {A} a.
Arguments Raised {A} x.

(** A file object. *)
Record py_file := PyFile { fileno : nat; name : string }.

Inductive event :=
| EvOpen (path : string) (mode : string) (ok : bool)
| EvWrite (file : py_file) (data : string) (ok : bool)
| EvClose (file : py_file) (ok : bool).

(** What the operating system and the buffering of the file object do with
    a call.  A text file is buffered: what [write] accepts stays pending in
    the file object until it is flushed, by a later part of the same call
    or by the close.
    - [Succeeds flushed]: the call returns; during a write the first
      [flushed] pending characters reach the file (a close that returns
      has flushed them all).
    - [Fails x flushed kept]: the call raises [x], which may carry the
      errors raised earlier inside the call as its context, after [flushed]
      pending characters reached the file; a failing write keeps the next
      [kept] characters pending and loses the others. *)
Inductive fate :=
| Succeeds (flushed : nat)
| Fails (x : py_exn) (flushed kept : nat).

(** Files are named by the path they are opened with, one entry per file:
    links and other spellings of a path are not modelled. *)
Record world := World {
  files : gmap string string;   (* path to contents *)
  open_files : list nat;        (* descriptors in use *)
  buffers : gmap nat string;    (* descriptor to text accepted but not yet in the file *)
  trace : list event;           (* calls made so far, oldest first *)
  fates : list fate             (* fate of the calls to come; none left: success *)
}.

Definition IO (A : Type) : Type := world -> world * outcome A.

#[global] Instance IO_ret : MRet IO := fun A a w => (w, Returned a).

#[global] Instance IO_bind : MBind IO := fun A B k m w =>
  match m w with
  | (w', Returned a) => k a w'
  | (w', Raised x) => (w', Raised x)
  end.

Definition next_fate (w : world) : fate := hd (Succeeds 0) (fates w).

Definition fresh_fd (l : list nat) : nat := S (foldr Nat.max 0 l).

Fixpoint release (fd : nat) (l : list nat) : list nat :=
  match l with
  | [] => []
  | x :: l' => if Nat.eqb fd x then l' else x :: release fd l'
  end.

(** [open(path, 'w')]: creates or truncates the file. *)
Definition py_open (path mode : string) : IO py_file := fun w =>
  match next_fate w with
  | Fails x _ _ =>
      (World (files w) (open_files w) (buffers w)
             (trace w ++ [EvOpen path mode false]) (tail (fates w)),
       Raised x)
  | Succeeds _ =>
      let file := PyFile (fresh_fd (open_files w)) path in
      (World (<[path := ""]> (files w)) (fileno file :: open_files w)
             (<[fileno file := ""]> (buffers w))
             (trace w ++ [EvOpen path mode true]) (tail (fates w)),
       Returned file)
  end.

Definition contents (w : world) (path : string) : string :=
  default "" (files w !! path).

Definition pending (w : world) (file : py_file) : string :=
  default "" (buffers w !! fileno file).

(** [file.write(data)]: the data joins the pending text, of which a part
    may be flushed to the file before the call returns or raises. *)
Definition py_write (file : py_file) (data : string) : IO nat := fun w =>
  if bool_decide (fileno file ∈ open_files w) then
    let buf := pending w file +:+ data in
    match next_fate w with
    | Fails x flushed kept =>
        (World (<[name file := contents w (name file) +:+ string_take flushed buf]> (files w))
               (open_files w)
               (<[fileno file := string_take kept (string_drop flushed buf)]> (buffers w))
               (trace w ++ [EvWrite file data false]) (tail (fates w)),
         Raised x)
    | Succeeds flushed =>
        (World (<[name file := contents w (name file) +:+ string_take flushed buf]> (files w))
               (open_files w)
               (<[fileno file := string_drop flushed buf]> (buffers w))
               (trace w ++ [EvWrite file data true]) (tail (fates w)),
         Returned (String.length data))
    end
  else (w, Raised (Exn ValueError [])).

(** [file.close()]: flushes the pending text and releases the descriptor;
    the descriptor is released even when the flush raises, and what was
    not flushed by then is lost. *)
Definition py_close (file : py_file) : IO unit := fun w =>
  let buf := pending w file in
  match next_fate w with
  | Fails x flushed _ =>
      (World (<[name file := contents w (name file) +:+ string_take flushed buf]> (files w))
             (release (fileno file) (open_files w))
             (delete (fileno file) (buffers w))
             (trace w ++ [EvClose file false]) (tail (fates w)),
       Raised x)
  | Succeeds _ =>
      (World (<[name file := contents w (name file) +:+ buf]> (files w))
             (release (fileno file) (open_files w))
             (delete (fileno file) (buffers w))
             (trace w ++ [EvClose file true]) (tail (fates w)),
       Returned tt)
  end.

(** [with open(path, mode) as file: body]: nothing is closed when the open
    raises; otherwise the file is closed on the way out, normal or not, and
    an exception of the close replaces the one in flight, which is added
    to the end of its context. *)
Definition with_open {A} (path mode : string) (body : py_file -> IO A) : IO A :=
  fun w =>
    match py_open path mode w with
    | (w1, Raised x) => (w1, Raised x)
    | (w1, Returned file) =>
        match body file w1 with
        | (w2, Returned a) =>
            match py_close file w2 with
            | (w3, Returned _) => (w3, Returned a)
            | (w3, Raised x) => (w3, Raised x)
            end
        | (w2, Raised x) =>
            match py_close file w2 with
            | (w3, Returned _) => (w3, Raised x)
            | (w3, Raised x') =>
                (w3, Raised (Exn (exn_error x')
                               (exn_context x' ++ exn_error x :: exn_context x)))
            end
        end
    end.

(** [write_to_file]: the value of [file.write] is dropped and the
    function returns [None]. *)
Definition write_to_file (filename content : string) : IO unit :=
  with_open filename "w" (fun file => _ ← py_write file content; mret tt).

Definition output_name : string := "rocshmem_RMA_X.hpp".

Definition generate_RMA_X_header (output_dir copyright : string) : IO unit :=
  let expanded_code := header_content copyright in
  let output_file := os_path_join output_dir output_name in
  write_to_file output_file expanded_code.

(** *** The calls of one emission and their fates *)

Definition fate_at (n : nat) (w : world) : fate := nth n (fates w) (Succeeds 0).

(** The errors a call raises, oldest first. *)
Definition fate_errors (f : fate) : list py_error :=
  match f with
  | Succeeds _ => []
  | Fails x _ _ => rev (exn_error x :: exn_context x)
  end.

Definition succeeds (f : fate) : bool :=
  match f with Succeeds _ => true | Fails _ _ _ => false end.

(** The errors raised by the open, the write and the close of one
    emission started in [w], in the order they are raised: after a failed
    open nothing else is called. *)
Definition raised_errors (w : world) : list py_error :=
  if succeeds (fate_at 0 w)
  then fate_errors (fate_at 1 w) ++ fate_errors (fate_at 2 w)
  else fate_errors (fate_at 0 w).

(** The calls one emission makes when started in [w]. *)
Definition emission_events (filename content : string) (w : world) : list event :=
  let file := PyFile (fresh_fd (open_files w)) filename in
  if succeeds (fate_at 0 w)
  then [EvOpen filename "w" true;
        EvWrite file content (succeeds (fate_at 1 w));
        EvClose file (succeeds (fate_at 2 w))]
  else [EvOpen filename "w" false].

(** What is in the file after an emission whose open succeeded: the part
    flushed by the write, then the part flushed by the close. *)
Definition emitted_part (content : string) (w : world) : string :=
  let written :=
    match fate_at 1 w with
    | Succeeds flushed | Fails _ flushed _ => string_take flushed content
    end in
  let left :=
    match fate_at 1 w with
    | Succeeds flushed => string_drop flushed content
    | Fails _ flushed kept => string_take kept (string_drop flushed content)
    end in
  match fate_at 2 w with
  | Succeeds _ => written +:+ left
  | Fails _ flushed _ => written +:+ string_take flushed left
  end.

Definition empty_world : world := World ∅ [] ∅ [] [].

(** A world with an earlier header in place and a descriptor in use. *)
Definition stale_world : world :=
  World {[ "build/rocshmem_RMA_X.hpp" := "stale" ]} [3] ∅ [] [].

(** ** Well-formed template arguments *)

(** Only letters, digits and underscores. *)
Fixpoint ident_string (s : string) : bool :=
  match s with
  | EmptyString => true
  | String c s' => is_ident_char c && ident_string s'
  end.

Fixpoint no_underscore (s : string) : bool :=
  match s with
  | EmptyString => true
  | String c s' => negb (Ascii.eqb c "_") && no_underscore s'
  end.

(** The lexer ends in code on [s]: no comment is left open at its end. *)
Definition ends_in_code (s : string) : bool :=
  match lx_mode (lex_run s lex_start) with LCode => true | _ => false end.

Definition starts_outside_identifier (s : string) : bool :=
  match s with
  | EmptyString => false
  | String d _ => negb (is_ident_char d)
  end.

(** The two names of the convention for arbitrary template arguments. *)
Definition template_ctx_symbol (fragment GRAN TNAME : string) : string :=
  "rocshmem_ctx_" +:+ TNAME +:+ "_" +:+ fragment +:+ "_" +:+ GRAN.

Definition template_default_symbol (fragment GRAN TNAME : string) : string :=
  "rocshmem_" +:+ TNAME +:+ "_" +:+ fragment +:+ "_" +:+ GRAN.

Fixpoint list_eqb_str (l1 l2 : list string) : bool :=
  match l1, l2 with
  | [], [] => true
  | x :: l1', y :: l2' => String.eqb x y && list_eqb_str l1' l2'
  | _, _ => false
  end.

(** The tokens of the two prototypes of one declaration unit. *)
Definition unit_tokens (f : family) (g : granularity) (ty : string * string) : list string :=
  prototype_tokens true (ctx_symbol f g ty) ty.1 ++
  prototype_tokens false (default_symbol f g ty) ty.1.

(** The prototypes of one family block, and of the whole cross product,
    in generation order. *)
Definition family_tokens (f : family) : list string :=
  g ← granularities; ty ← types; unit_tokens f g ty.

Definition declarations_tokens : list string :=
  f ← families; family_tokens f.

Definition family_block_check (f : family) : bool :=
  lex_clean (family_block f) &&
  list_eqb_str (tokens (family_block f)) (family_tokens f).

(** * Properties *)

(** ** General lemmas *)

Lemma string_app_assoc (a b c : string) : (a +:+ b) +:+ c = a +:+ (b +:+ c).
Proof. induction a as [|x a IH]; [reflexivity | exact (f_equal (String x) IH)]. Qed.

Lemma string_app_nil_r (a : string) : a +:+ "" = a.
Proof. induction a as [|x a IH]; [reflexivity | exact (f_equal (String x) IH)]. Qed.

Lemma mem_str_elem_of x l : mem_str x l = true <-> x ∈ l.
Proof.
  induction l as [|y l IH]; simpl.
  - split; [discriminate | inversion 1].
  - rewrite orb_true_iff, IH, String.eqb_eq, elem_of_cons. tauto.
Qed.

Lemma nodup_str_sound l : nodup_str l = true -> NoDup l.
Proof.
  induction l as [|x l IH]; simpl; intros H.
  - constructor.
  - apply andb_true_iff in H as [Hx Hl].
    apply NoDup_cons. split; [| now apply IH].
    intros Hin. apply mem_str_elem_of in Hin. rewrite Hin in Hx. discriminate.
Qed.

(** A function whose image of a list has no duplicates is injective on
    that list. *)
Lemma NoDup_fmap_inj_on {A B} (key : A -> B) (l : list A) :
  NoDup (key <$> l) ->
  forall x y, x ∈ l -> y ∈ l -> key x = key y -> x = y.
Proof.
  induction l as [|a l IH]; simpl; intros Hnd x y Hx Hy Hk.
  - inversion Hx.
  - apply NoDup_cons in Hnd as [Hnotin Hnd].
    apply elem_of_cons in Hx as [-> | Hx]; apply elem_of_cons in Hy as [-> | Hy]; auto.
    + exfalso. apply Hnotin. rewrite Hk. now apply list_elem_of_fmap_2.
    + exfalso. apply Hnotin. rewrite <- Hk. now apply list_elem_of_fmap_2.
Qed.

Lemma elem_of_all_triples f g ty : ty ∈ types -> (f, g, ty) ∈ all_triples.
Proof.
  intros H. unfold all_triples.
  apply list_elem_of_bind. exists f. split; [| destruct f; repeat constructor].
  apply list_elem_of_bind. exists g. split; [| destruct g; repeat constructor].
  apply list_elem_of_bind. exists ty. split; [constructor | exact H].
Qed.

(** Case analysis over the rows of the type table. *)
Ltac each_type H :=
  unfold types in H;
  repeat (apply elem_of_cons in H as [H | H]; [subst |]);
  [.. | now apply elem_of_nil in H].

(** ** The four templates are one template *)

(** C10: for all arguments, each of the four per-family template functions
    returns the common template text with its own family fragment (put,
    get, put_nbi, get_nbi) in the two symbol names; nothing else differs. *)
Theorem templates_differ_only_in_fragment (GRAN T TNAME : string) :
  put_api_x GRAN T TNAME = api_x_template "put" GRAN T TNAME /\
  get_api_x GRAN T TNAME = api_x_template "get" GRAN T TNAME /\
  put_nbi_api_x GRAN T TNAME = api_x_template "put_nbi" GRAN T TNAME /\
  get_nbi_api_x GRAN T TNAME = api_x_template "get_nbi" GRAN T TNAME.
Proof.
  unfold put_api_x, get_api_x, put_nbi_api_x, get_nbi_api_x, api_x_template.
  repeat split; reflexivity.
Qed.

(** ** Declaration units *)

(** The names read back from a declaration unit are the two names of the
    naming convention. *)
Lemma declared_pair_spec f g ty :
  ty ∈ types -> declared_pair (f, g, ty) = symbol_pair f g ty.
Proof.
  intros H. each_type H; destruct f, g; vm_compute; reflexivity.
Qed.

(** C2: for every family, granularity and row of the type table, the
    declaration unit reads as exactly two prototypes: the context-qualified
    one, named rocshmem_ctx_<shortName>_<fragment>_<tag>, with parameters
    (rocshmem_ctx_t ctx, T *dest, const T *source, size_t nelems, int pe),
    then the default-context one, named rocshmem_<shortName>_<fragment>_<tag>,
    with the same parameters minus the context handle; both are
    [__device__ ATTR_NO_INLINE void] and end in a semicolon.  For int, Put
    and per-wave they are the two prototypes of the scenario. *)
Theorem declaration_unit_two_prototypes f g ty :
  ty ∈ types ->
  tokens (declaration_unit f g ty) =
    prototype_tokens true (ctx_symbol f g ty) ty.1 ++
    prototype_tokens false (default_symbol f g ty) ty.1
  /\ tokens (declaration_unit Put PerWave ("int", "int")) =
       ["__device__"; "ATTR_NO_INLINE"; "void"] ++
       tokens "rocshmem_ctx_int_put_wave(rocshmem_ctx_t ctx, int *dest, const int *source, size_t nelems, int pe)" ++
       [";"] ++
       ["__device__"; "ATTR_NO_INLINE"; "void"] ++
       tokens "rocshmem_int_put_wave(int *dest, const int *source, size_t nelems, int pe)" ++
       [";"].
Proof.
  intros H. split; [| vm_compute; reflexivity].
  each_type H; destruct f, g; vm_compute; reflexivity.
Qed.

Lemma declaration_unit_two_prototypes_witness :
  ("int", "int") ∈ types /\
  tokens (declaration_unit Get PerWorkgroup ("int", "int")) =
    prototype_tokens true "rocshmem_ctx_int_get_wg" "int" ++
    prototype_tokens false "rocshmem_int_get_wg" "int".
Proof.
  assert (H : ("int", "int") ∈ types) by (unfold types; repeat constructor).
  split; [exact H |].
  exact (proj1 (declaration_unit_two_prototypes Get PerWorkgroup ("int", "int") H)).
Defined.

(** ** Injectivity of the naming *)

Lemma pair_keys_NoDup : NoDup (pair_key <$> all_triples).
Proof. apply nodup_str_sound. vm_compute. reflexivity. Qed.

(** C3: two triples of the cross product whose declaration units declare
    the same pair of symbol names are the same triple. *)
Theorem symbol_naming_injective (t1 t2 : triple) :
  t1.2 ∈ types -> t2.2 ∈ types ->
  declared_pair t1 = declared_pair t2 -> t1 = t2.
Proof.
  destruct t1 as [[f1 g1] ty1], t2 as [[f2 g2] ty2]; simpl.
  intros H1 H2 Heq.
  apply (NoDup_fmap_inj_on pair_key all_triples pair_keys_NoDup);
    [now apply elem_of_all_triples | now apply elem_of_all_triples |].
  unfold pair_key. now rewrite Heq.
Qed.

Lemma symbol_naming_injective_witness :
  (Put, PerWave, ("int", "int")) = (Put, PerWave, ("int", "int")).
Proof.
  apply (symbol_naming_injective (Put, PerWave, ("int", "int")) (Put, PerWave, ("int", "int")));
    [unfold types; repeat constructor | unfold types; repeat constructor | reflexivity].
Defined.

(** ** The banner is a verbatim prefix *)

Lemma header_content_banner (copyright : string) :
  header_content copyright = copyright +:+ header_content "".
Proof.
  unfold header_content.
  change ("" +:+ guard_open) with guard_open.
  now rewrite !string_app_assoc.
Qed.

Lemma header_content_empty :
  header_content "" = guard_open +:+ family_blocks +:+ guard_close.
Proof.
  unfold header_content, family_blocks.
  change ("" +:+ guard_open) with guard_open.
  now rewrite !string_app_assoc.
Qed.

Lemma header_content_units (copyright : string) :
  header_content copyright =
    copyright +:+ guard_open +:+ family_blocks +:+ guard_close.
Proof. unfold header_content, family_blocks. now rewrite !string_app_assoc. Qed.

(** ** Completeness *)

Lemma occurs_once_spec text toks f g ty :
  occurs_once text toks f g ty = true ->
  count_str (ctx_symbol f g ty) toks = 1 /\
  count_str (default_symbol f g ty) toks = 1 /\
  count_sub (ctx_symbol f g ty) text = 1 /\
  count_sub (default_symbol f g ty) text = 1.
Proof.
  unfold occurs_once. intros H.
  apply andb_true_iff in H as [H H4].
  apply andb_true_iff in H as [H H3].
  apply andb_true_iff in H as [H1 H2].
  apply Nat.eqb_eq in H1, H2, H3, H4. tauto.
Qed.

Lemma occurs_once_check_spec text f g ty :
  occurs_once_check text = true -> ty ∈ types ->
  occurs_once text (tokens text) f g ty = true.
Proof.
  unfold occurs_once_check. cbv zeta. intros Hall H.
  rewrite forallb_forall in Hall.
  apply (Hall (f, g, ty)).
  apply list_elem_of_In, elem_of_all_triples, H.
Qed.

Lemma occurs_once_check_true : occurs_once_check (header_content "") = true.
Proof. vm_compute. reflexivity. Qed.

Lemma symbol_occurrences_expected : symbol_occurrences = expected_symbols.
Proof. vm_compute. reflexivity. Qed.

Lemma symbol_occurrences_length : length symbol_occurrences = 208.
Proof. rewrite symbol_occurrences_expected. vm_compute. reflexivity. Qed.

Lemma symbol_occurrences_NoDup : NoDup symbol_occurrences.
Proof.
  rewrite symbol_occurrences_expected.
  apply nodup_str_sound. vm_compute. reflexivity.
Qed.

(** C1, as stated, fails on the count: the text declares 208 function
    names, not 416. *)
Lemma symbol_occurrences_not_416 : length symbol_occurrences <> 416.
Proof. rewrite symbol_occurrences_length. discriminate. Qed.

(** C1 (amended): the document is the banner followed by a text in which,
    for every family, granularity and row of the type table, the
    context-qualified name and the default-context name each occur exactly
    once, as a token and as a substring; that text declares 104 * 2 = 208
    function names, pairwise distinct. *)
Theorem symbols_occur_once (copyright : string) f g ty :
  ty ∈ types ->
  header_content copyright = copyright +:+ header_content "" /\
  count_str (ctx_symbol f g ty) (tokens (header_content "")) = 1 /\
  count_str (default_symbol f g ty) (tokens (header_content "")) = 1 /\
  count_sub (ctx_symbol f g ty) (header_content "") = 1 /\
  count_sub (default_symbol f g ty) (header_content "") = 1 /\
  length symbol_occurrences = 208 /\
  NoDup symbol_occurrences.
Proof.
  intros H.
  split; [apply header_content_banner |].
  destruct (occurs_once_spec _ _ _ _ _
              (occurs_once_check_spec _ f g ty occurs_once_check_true H))
    as (H1 & H2 & H3 & H4).
  split; [exact H1 |]. split; [exact H2 |].
  split; [exact H3 |]. split; [exact H4 |].
  split; [exact symbol_occurrences_length | exact symbol_occurrences_NoDup].
Qed.

Lemma symbols_occur_once_witness :
  count_sub "rocshmem_ctx_int_put_wave" (header_content "") = 1 /\
  count_sub "rocshmem_int_put_wave" (header_content "") = 1.
Proof.
  assert (H : ("int", "int") ∈ types) by (unfold types; repeat constructor).
  destruct (symbols_occur_once "" Put PerWave ("int", "int") H)
    as (_ & _ & _ & H3 & H4 & _).
  split; [exact H3 | exact H4].
Defined.

(** ** The lexer on concatenated text *)

Lemma lex_run_app (a b : string) (st : lex_state) :
  lex_run (a +:+ b) st = lex_run b (lex_run a st).
Proof.
  revert st. induction a as [|c a IH]; intros st; [reflexivity |].
  exact (IH (lex_step st c)).
Qed.

Lemma lx_flush_shift cur out base :
  lx_flush cur (out ++ base) = lx_flush cur out ++ base.
Proof. destruct cur; reflexivity. Qed.

Lemma lex_code_shift base cur out c :
  lex_code cur (out ++ base) c = lx_shift base (lex_code cur out c).
Proof.
  unfold lex_code, lx_shift.
  destruct (is_ident_char c); [reflexivity |].
  rewrite lx_flush_shift.
  destruct (Ascii.eqb c "/"); [reflexivity |].
  destruct (is_space_char c); reflexivity.
Qed.

Lemma lex_step_shift base st c :
  lex_step (lx_shift base st) c = lx_shift base (lex_step st c).
Proof.
  destruct st as [m cur out]. unfold lex_step, lx_shift at 1. cbn [lx_mode lx_cur lx_out].
  destruct m.
  - apply lex_code_shift.
  - destruct (Ascii.eqb c "*"); [reflexivity |].
    destruct (Ascii.eqb c "/"); [reflexivity |].
    apply (lex_code_shift base [] ("/" :: out) c).
  - destruct (Ascii.eqb c "*"); reflexivity.
  - destruct (Ascii.eqb c "/"); [reflexivity |].
    destruct (Ascii.eqb c "*"); reflexivity.
  - destruct (Ascii.eqb c (ascii_of_nat 10)); reflexivity.
Qed.

Lemma lex_run_shift base s st :
  lex_run s (lx_shift base st) = lx_shift base (lex_run s st).
Proof.
  revert st. induction s as [|c s IH]; intros st; [reflexivity |].
  cbn [lex_run]. rewrite lex_step_shift. apply IH.
Qed.

Lemma lex_finish_shift base st :
  lex_finish (lx_shift base st) = rev base ++ lex_finish st.
Proof.
  destruct st as [m cur out]. unfold lex_finish, lx_shift. cbn [lx_mode lx_cur lx_out].
  destruct m; rewrite ?lx_flush_shift, ?app_comm_cons, rev_app_distr; reflexivity.
Qed.

(** Text that ends between tokens is lexed independently of what follows. *)
Lemma tokens_app (a b : string) :
  lex_clean a = true -> tokens (a +:+ b) = tokens a ++ tokens b.
Proof.
  unfold lex_clean, tokens. rewrite lex_run_app.
  destruct (lex_run a lex_start) as [m cur out].
  destruct m; try discriminate. destruct cur; [intros _ | discriminate].
  change (LexState LCode [] out) with (lx_shift out lex_start).
  rewrite lex_run_shift, lex_finish_shift. reflexivity.
Qed.

(** A banner that ends between tokens leaves the tokens of the generated
    text unchanged; a banner made of comments and white space adds none. *)
Lemma tokens_header_content (copyright : string) :
  lex_clean copyright = true ->
  tokens (header_content copyright) =
    tokens copyright ++ tokens (header_content "").
Proof.
  intros H. rewrite (header_content_banner copyright). now apply tokens_app.
Qed.

(** A comment block followed by a line break is such a banner. *)
Example comment_banner_clean :
  let banner := "/* Copyright (c) 2024 Advanced Micro Devices, Inc. */
" in
  lex_clean banner = true /\ tokens banner = [].
Proof. split; vm_compute; reflexivity. Qed.

(** ** Order of generation *)

Lemma emit_types_spec api GRAN acc :
  emit_types api GRAN acc =
    acc +:+ concat_str ((fun ty => api GRAN ty.1 ty.2) <$> types).
Proof.
  unfold emit_types. generalize types. intros l. revert acc.
  induction l as [|[type_ tname_] l IH]; intros acc.
  - symmetry. apply string_app_nil_r.
  - cbn [fold_left fmap list_fmap concat_str foldr fst snd].
    rewrite IH. apply string_app_assoc.
Qed.

Lemma family_block_units (f : family) :
  family_block f =
    family_doc f PerWave +:+ declaration_units f PerWave +:+
    family_doc f PerWorkgroup +:+ declaration_units f PerWorkgroup.
Proof.
  destruct f;
    unfold family_block, generate_put_api_x, generate_get_api_x,
      generate_put_nbi_api_x, generate_get_nbi_api_x;
    cbv zeta; rewrite !emit_types_spec, !string_app_assoc; reflexivity.
Qed.

Lemma family_block_symbols (f : family) :
  declared_symbols (tokens (family_block f)) = family_symbols f.
Proof. destruct f; vm_compute; reflexivity. Qed.

(** C4: the document is the banner, the opening literal, the Put, Get,
    PutNonBlocking and GetNonBlocking blocks in this order, and the closing
    literal; each block is its per-wave documentation, the declaration
    units of all 13 types in table order at per-wave granularity, its
    per-workgroup documentation and the 13 per-workgroup units; the names
    declared by each block, and by the whole text, appear in exactly that
    order. *)
Theorem generation_order (copyright : string) :
  header_content copyright =
    copyright +:+ guard_open +:+
    family_block Put +:+ family_block Get +:+
    family_block PutNonBlocking +:+ family_block GetNonBlocking +:+
    guard_close /\
  (forall f, family_block f =
     family_doc f PerWave +:+ declaration_units f PerWave +:+
     family_doc f PerWorkgroup +:+ declaration_units f PerWorkgroup) /\
  (forall f, declared_symbols (tokens (family_block f)) = family_symbols f) /\
  symbol_occurrences = expected_symbols.
Proof.
  split; [| split; [exact family_block_units |
                    split; [exact family_block_symbols |
                            exact symbol_occurrences_expected]]].
  rewrite header_content_units. unfold family_blocks, family_block.
  now rewrite !string_app_assoc.
Qed.

(** ** Structure of the document *)

Lemma guard_open_tokens :
  tokens guard_open =
    ["#"; "ifndef"; guard_macro; "#"; "define"; guard_macro;
     "namespace"; "rocshmem"; "{"].
Proof. vm_compute. reflexivity. Qed.

Lemma guard_close_tokens : tokens guard_close = ["}"; "#"; "endif"].
Proof. vm_compute. reflexivity. Qed.

Lemma guard_open_clean : lex_clean guard_open = true.
Proof. vm_compute. reflexivity. Qed.

Lemma declarations_check_true : declarations_check family_blocks = true.
Proof. vm_compute. reflexivity. Qed.

Lemma raw_structure_check_true : raw_structure_check (header_content "") = true.
Proof. vm_compute. reflexivity. Qed.

Lemma declarations_check_spec blocks :
  declarations_check blocks = true ->
  lex_clean blocks = true /\
  count_str "#" (tokens blocks) = 0 /\ count_str "{" (tokens blocks) = 0 /\
  count_str "}" (tokens blocks) = 0 /\
  count_str "namespace" (tokens blocks) = 0 /\
  count_str ";" (tokens blocks) = 208 /\
  length (declared_symbols (tokens blocks)) = 208.
Proof.
  unfold declarations_check. cbv zeta. intros H.
  repeat (apply andb_true_iff in H as [H ?]).
  repeat match goal with E : Nat.eqb _ _ = true |- _ => apply Nat.eqb_eq in E end.
  tauto.
Qed.

Lemma raw_structure_check_spec text :
  raw_structure_check text = true ->
  count_sub ("#ifndef " +:+ guard_macro) text = 1 /\
  count_sub ("#define " +:+ guard_macro) text = 1 /\
  count_sub "#endif" text = 1 /\
  count_sub "#" text = 3 /\
  count_sub "namespace rocshmem {" text = 1 /\
  count_sub "{" text = 1 /\
  count_sub "}" text = 1.
Proof.
  unfold raw_structure_check. intros H.
  repeat (apply andb_true_iff in H as [H ?]).
  repeat match goal with E : Nat.eqb _ _ = true |- _ => apply Nat.eqb_eq in E end.
  tauto.
Qed.

Lemma header_tokens :
  tokens (header_content "") =
    tokens guard_open ++ tokens family_blocks ++ tokens guard_close.
Proof.
  rewrite header_content_empty.
  rewrite (tokens_app _ _ guard_open_clean).
  rewrite (tokens_app _ _ (proj1 (declarations_check_spec _ declarations_check_true))).
  reflexivity.
Qed.

Lemma prefix_nil (s : string) : String.prefix "" s = true.
Proof. destruct s; reflexivity. Qed.

(** A pattern does not start inside a text that lacks its first
    character: before such a text the count is that of what follows. *)
Lemma count_sub_after (p : ascii) (pat banner s : string) :
  has_char p banner = false ->
  count_sub (String p pat) (banner +:+ s) = count_sub (String p pat) s.
Proof.
  induction banner as [|x banner IH]; intros H; [reflexivity |].
  cbn [has_char] in H. apply orb_false_iff in H as [Hx Hb].
  change (String x banner +:+ s) with (String x (banner +:+ s)).
  cbn [count_sub String.prefix].
  destruct (ascii_dec p x) as [-> | _].
  - rewrite Ascii.eqb_refl in Hx. discriminate Hx.
  - cbn [Nat.add]. exact (IH Hb).
Qed.

Lemma prefix_self_app (a x : string) : String.prefix a (a +:+ x) = true.
Proof.
  induction a as [|c a IH]; [apply prefix_nil |].
  change (String c a +:+ x) with (String c (a +:+ x)).
  cbn [String.prefix].
  destruct (ascii_dec c c) as [_ | Hne]; [exact IH | now contradiction Hne].
Qed.

Lemma count_sub_self_app (p : ascii) (pat s : string) :
  count_sub (String p pat) (String p pat +:+ s) =
    1 + count_sub (String p pat) (pat +:+ s).
Proof.
  change (String p pat +:+ s) with (String p (pat +:+ s)) at 1.
  cbn [count_sub].
  change (String p (pat +:+ s)) with (String p pat +:+ s).
  now rewrite prefix_self_app.
Qed.

(** C6, as stated, fails for a banner that itself holds a directive: the
    document for the banner "#endif" has two of them. *)
Lemma banner_endif_counted_twice :
  count_sub "#endif" (header_content "#endif") <> 1.
Proof.
  rewrite (header_content_banner "#endif").
  rewrite (count_sub_self_app "#" "endif" (header_content "")).
  rewrite (count_sub_after "#" "endif" "endif" (header_content "") eq_refl).
  rewrite (proj1 (proj2 (proj2 (raw_structure_check_spec _ raw_structure_check_true)))).
  discriminate.
Qed.

(** C6 (amended): for every banner, the empty one included, the document
    is the banner, unmodified, followed by a text that does not depend on
    it.  That text reads as one include guard ([#ifndef], [#define] at the
    start, [#endif] at the end) around one namespace block
    ([namespace rocshmem {] and its closing brace) around the declarations
    region; the region holds no directive, brace or namespace keyword and
    consists of the 208 prototypes.  In the raw text each guard directive,
    the namespace opener and each brace occur exactly once.  With an empty
    banner the document is that text alone; with a banner that ends
    outside comments and identifiers, such as a comment block, the tokens
    of the document are those of the banner followed by those of that
    text; and when the banner holds no [#], no opening and no closing
    brace, the whole document holds each guard directive and each brace
    exactly once. *)
Theorem document_structure (copyright : string) :
  header_content copyright =
    copyright +:+ guard_open +:+ family_blocks +:+ guard_close /\
  header_content "" = guard_open +:+ family_blocks +:+ guard_close /\
  tokens (header_content "") =
    ["#"; "ifndef"; guard_macro; "#"; "define"; guard_macro;
     "namespace"; "rocshmem"; "{"] ++
    tokens family_blocks ++
    ["}"; "#"; "endif"] /\
  (count_str "#" (tokens family_blocks) = 0 /\
   count_str "{" (tokens family_blocks) = 0 /\
   count_str "}" (tokens family_blocks) = 0 /\
   count_str "namespace" (tokens family_blocks) = 0 /\
   count_str ";" (tokens family_blocks) = 208 /\
   length (declared_symbols (tokens family_blocks)) = 208) /\
  (count_sub ("#ifndef " +:+ guard_macro) (header_content "") = 1 /\
   count_sub ("#define " +:+ guard_macro) (header_content "") = 1 /\
   count_sub "#endif" (header_content "") = 1 /\
   count_sub "#" (header_content "") = 3 /\
   count_sub "namespace rocshmem {" (header_content "") = 1 /\
   count_sub "{" (header_content "") = 1 /\
   count_sub "}" (header_content "") = 1) /\
  (lex_clean copyright = true ->
   tokens (header_content copyright) =
     tokens copyright ++ tokens (header_content "")) /\
  (has_char "#" copyright = false ->
   count_sub ("#ifndef " +:+ guard_macro) (header_content copyright) = 1 /\
   count_sub ("#define " +:+ guard_macro) (header_content copyright) = 1 /\
   count_sub "#endif" (header_content copyright) = 1 /\
   count_sub "#" (header_content copyright) = 3) /\
  (has_char "{" copyright = false ->
   count_sub "{" (header_content copyright) = 1) /\
  (has_char "}" copyright = false ->
   count_sub "}" (header_content copyright) = 1).
Proof.
  destruct (raw_structure_check_spec _ raw_structure_check_true)
    as (R1 & R2 & R3 & R4 & R5 & R6 & R7).
  split; [apply header_content_units |].
  split; [exact header_content_empty |].
  split.
  { rewrite header_tokens, guard_open_tokens, guard_close_tokens. reflexivity. }
  split; [apply (declarations_check_spec _ declarations_check_true) |].
  split; [apply (raw_structure_check_spec _ raw_structure_check_true) |].
  split; [apply tokens_header_content |].
  rewrite (header_content_banner copyright).
  split; [| split].
  - intros H.
    split; [exact (eq_trans (count_sub_after "#" ("ifndef " +:+ guard_macro)
                               copyright (header_content "") H) R1) |].
    split; [exact (eq_trans (count_sub_after "#" ("define " +:+ guard_macro)
                               copyright (header_content "") H) R2) |].
    split; [exact (eq_trans (count_sub_after "#" "endif"
                               copyright (header_content "") H) R3) |].
    exact (eq_trans (count_sub_after "#" "" copyright (header_content "") H) R4).
  - intros H.
    exact (eq_trans (count_sub_after "{" "" copyright (header_content "") H) R6).
  - intros H.
    exact (eq_trans (count_sub_after "}" "" copyright (header_content "") H) R7).
Qed.

(** ** Documentation blocks *)

Lemma prefix_app (p s : string) :
  String.prefix p s = true -> s = p +:+ string_drop (String.length p) s.
Proof.
  revert s. induction p as [|c p IH]; intros s H; [reflexivity |].
  destruct s as [|d s]; [discriminate |].
  cbn [String.prefix] in H.
  destruct (ascii_dec c d) as [-> | ]; [| discriminate].
  cbn [String.length string_drop].
  exact (f_equal (String d) (IH s H)).
Qed.

(** [split_on] cuts the text at an occurrence of the pattern. *)
Lemma split_on_spec (pat s before after : string) :
  split_on pat s = Some (before, after) -> s = before +:+ pat +:+ after.
Proof.
  revert before. induction s as [|c s IH]; intros before.
  - cbn [split_on]. destruct (String.prefix pat "") eqn:E; [| discriminate].
    intros [= <- <-]. now apply prefix_app.
  - cbn [split_on]. destruct (String.prefix pat (String c s)) eqn:E.
    + intros [= <- <-]. now apply prefix_app.
    + destruct (split_on pat s) as [[b a] |]; [| discriminate].
      intros [= <- <-]. exact (f_equal (String c) (IH b eq_refl)).
Qed.

Lemma between_spec (l r d before middle after : string) :
  between l r d = Some (before, middle, after) ->
  d = before +:+ l +:+ middle +:+ r +:+ after.
Proof.
  unfold between.
  destruct (split_on l d) as [[b rest] |] eqn:E1; [| discriminate].
  destruct (split_on r rest) as [[m a] |] eqn:E2; [| discriminate].
  intros [= <- <- <-].
  apply split_on_spec in E1, E2. now rewrite E1, E2.
Qed.

Lemma differ_only_in_phrase_decide (f : family) :
  differ_only_in_phrase f <-> same_outside_sentence f = true.
Proof.
  unfold differ_only_in_phrase, same_outside_sentence.
  destruct (doc_sentence_split (family_doc f PerWave)) as [[[b1 p1] a1] |];
    destruct (doc_sentence_split (family_doc f PerWorkgroup)) as [[[b2 p2] a2] |].
  - rewrite andb_true_iff, !String.eqb_eq. split.
    + intros (b & a & pw & pg & [= -> _ ->] & [= -> _ ->]). now split.
    + intros [-> ->]. now exists b2, a2, p1, p2.
  - split; [intros (? & ? & ? & ? & _ & [=]) | discriminate].
  - split; [intros (? & ? & ? & ? & [=] & _) | discriminate].
  - split; [intros (? & ? & ? & ? & [=] & _) | discriminate].
Qed.

(** C7, as stated, fails for the Put family: after the
    divergent-control-paths sentence its two blocks go on differently
    ("all threads in a wave ..." against "All threads in a WG ..."). *)
Lemma put_docs_differ_beyond_phrase : ~ differ_only_in_phrase Put.
Proof.
  rewrite differ_only_in_phrase_decide.
  assert (E : same_outside_sentence Put = false) by (vm_compute; reflexivity).
  rewrite E. discriminate.
Qed.

(** The same holds of every family. *)
Lemma docs_differ_beyond_phrase (f : family) : ~ differ_only_in_phrase f.
Proof.
  rewrite differ_only_in_phrase_decide.
  assert (E : same_outside_sentence f = false)
    by (destruct f; vm_compute; reflexivity).
  rewrite E. discriminate.
Qed.

(** C7 (amended): for each family the per-wave and per-workgroup blocks are
    the same text before and after the granularity paragraph, which starts
    at "This function can be called from divergent control paths at" and
    ends at the blank comment line before the parameter list; the paragraph
    of the per-wave block starts with per-wave, that of the per-workgroup
    block with per-workgroup. *)
Theorem docs_differ_only_in_paragraph (f : family) :
  exists brief params para_wave para_wg,
    doc_paragraph_split (family_doc f PerWave) = Some (brief, para_wave, params) /\
    doc_paragraph_split (family_doc f PerWorkgroup) = Some (brief, para_wg, params) /\
    family_doc f PerWave =
      brief +:+ divergent_open +:+ para_wave +:+ params_open +:+ params /\
    family_doc f PerWorkgroup =
      brief +:+ divergent_open +:+ para_wg +:+ params_open +:+ params /\
    String.prefix "per-wave" para_wave = true /\
    String.prefix "per-workgroup" para_wg = true.
Proof.
  destruct (doc_paragraph_split (family_doc f PerWave)) as [[[b1 p1] a1] |] eqn:E1;
    [| destruct f; vm_compute in E1; discriminate E1].
  destruct (doc_paragraph_split (family_doc f PerWorkgroup)) as [[[b2 p2] a2] |] eqn:E2;
    [| destruct f; vm_compute in E2; discriminate E2].
  assert (Hsame : b1 = b2 /\ a1 = a2 /\
                  String.prefix "per-wave" p1 = true /\
                  String.prefix "per-workgroup" p2 = true).
  { destruct f; vm_compute in E1; vm_compute in E2;
      injection E1 as <- <- <-; injection E2 as <- <- <-;
      repeat split; vm_compute; reflexivity. }
  destruct Hsame as (<- & <- & Hp1 & Hp2).
  exists b1, a1, p1, p2.
  split; [reflexivity |]. split; [reflexivity |].
  split; [now apply between_spec |]. split; [now apply between_spec |].
  split; assumption.
Qed.

(** C8 on the code: only the two blocks of the Put family describe
    [nelems] as a number of elements; the six blocks of the Get,
    PutNonBlocking and GetNonBlocking families describe it as a size in
    bytes. *)
Theorem nelems_described_in_bytes (f : family) (g : granularity) :
  nelems_description (family_doc f g) =
    Some (match f with
          | Put => "Size of the transfer in number of elements."
          | _ => "Size of the transfer in bytes."
          end).
Proof. destruct f, g; vm_compute; reflexivity. Qed.

(** ** The emitter *)

Lemma release_head fd l : release fd (fd :: l) = l.
Proof. cbn [release]. now rewrite Nat.eqb_refl. Qed.

Lemma string_take_drop (n : nat) (s : string) :
  string_take n s +:+ string_drop n s = s.
Proof.
  revert s. induction n as [|n IH]; intros [|c s]; try reflexivity.
  exact (f_equal (String c) (IH s)).
Qed.






Lemma py_write_open file data fs ofs bs tr fts :
  py_write file data (World fs (fileno file :: ofs) bs tr fts) =
    let buf := default "" (bs !! fileno file) +:+ data in
    match hd (Succeeds 0) fts with
    | Fails x flushed kept =>
        (World (<[name file := default "" (fs !! name file) +:+ string_take flushed buf]> fs)
               (fileno file :: ofs)
               (<[fileno file := string_take kept (string_drop flushed buf)]> bs)
               (tr ++ [EvWrite file data false]) (tail fts),
         Raised x)
    | Succeeds flushed =>
        (World (<[name file := default "" (fs !! name file) +:+ string_take flushed buf]> fs)
               (fileno file :: ofs)
               (<[fileno file := string_drop flushed buf]> bs)
               (tr ++ [EvWrite file data true]) (tail fts),
         Returned (String.length data))
    end.
Proof.
  unfold py_write. cbn [open_files].
  rewrite bool_decide_eq_true_2 by apply list_elem_of_here.
  reflexivity.
Qed.

(** The run of [write_to_file] in closed form, by the fates of its calls. *)
Lemma write_to_file_run (filename content : string) (w : world) :
  write_to_file filename content w =
    let tr := trace w ++ emission_events filename content w in
    match fate_at 0 w with
    | Fails x _ _ =>
        (World (files w) (open_files w) (buffers w) tr (tail (fates w)), Raised x)
    | Succeeds _ =>
        (World (<[filename := emitted_part content w]> (files w))
               (open_files w)
               (delete (fresh_fd (open_files w)) (buffers w))
               tr (tail (tail (tail (fates w)))),
         match fate_at 1 w, fate_at 2 w with
         | Succeeds _, Succeeds _ => Returned tt
         | Succeeds _, Fails x' _ _ => Raised x'
         | Fails x _ _, Succeeds _ => Raised x
         | Fails x _ _, Fails x' _ _ =>
             Raised (Exn (exn_error x')
                       (exn_context x' ++ exn_error x :: exn_context x))
         end)
    end.
Proof.
  destruct w as [fs ofs bs tr fts].
  unfold write_to_file, with_open, py_open, emission_events, emitted_part,
    fate_at, next_fate.
  cbn [fates files open_files buffers trace].
  destruct fts as [|f0 [|f1 [|f2 fts]]];
    try destruct f0 as [k0 | x0 k0 j0];
    try destruct f1 as [k1 | x1 k1 j1];
    try destruct f2 as [k2 | x2 k2 j2];
    cbn [hd nth tail succeeds]; try reflexivity;
    unfold mbind, IO_bind, mret, IO_ret; cbn [fileno];
    change (fresh_fd ofs :: ofs)
      with (fileno (PyFile (fresh_fd ofs) filename) :: ofs);
    rewrite py_write_open; cbv zeta; cbn [name fileno hd tail];
    rewrite !lookup_insert_eq; cbn [default from_option id];
    change ("" +:+ content) with content;
    unfold py_close, pending, contents, next_fate;
    cbn [fates hd tail files open_files buffers trace fileno name];
    rewrite !lookup_insert_eq, !insert_insert_eq, !delete_insert_eq;
    cbn [default from_option id];
    rewrite release_head, <- !app_assoc; reflexivity.
Qed.

Lemma rev_cons_not_nil {A} (a : A) (l : list A) : rev (a :: l) <> [].
Proof. cbn [rev]. destruct (rev l); discriminate. Qed.

Lemma write_to_file_spec (filename content : string) (w : world) :
  let w' := (write_to_file filename content w).1 in
  let r := (write_to_file filename content w).2 in
  trace w' = trace w ++ emission_events filename content w /\
  open_files w' = open_files w /\
  (r = Returned tt <-> raised_errors w = []) /\
  (forall x, r = Raised x ->
     exn_error x :: exn_context x = rev (raised_errors w)) /\
  (r = Returned tt -> files w' = <[filename := content]> (files w)) /\
  (succeeds (fate_at 0 w) = true ->
     files w' = <[filename := emitted_part content w]> (files w)) /\
  (succeeds (fate_at 0 w) = false -> files w' = files w).
Proof.
  cbv zeta. rewrite write_to_file_run. cbv zeta.
  unfold raised_errors, emitted_part.
  destruct (fate_at 0 w) as [k0 | x0 k0 j0];
    [destruct (fate_at 1 w) as [k1 | x1 k1 j1], (fate_at 2 w) as [k2 | x2 k2 j2] |];
    cbn [fst snd trace open_files files fate_errors succeeds app];
    rewrite ?string_take_drop;
    repeat split; try discriminate; try congruence;
    try (intros E; exfalso; revert E; try apply rev_cons_not_nil;
         apply app_cons_not_nil || (intros E; apply app_eq_nil in E as [E _];
                                    revert E; apply rev_cons_not_nil));
    try (intros x [= <-]; cbn [exn_error exn_context];
         rewrite ?app_nil_r, ?rev_app_distr, ?rev_involutive; reflexivity).
Qed.



(** The run the buffering makes possible: the write returns, the flush of
    the close fails twice over, and the caller gets the second error with
    the first as its context while the file is left truncated. *)
Example close_fails_after_buffered_write :
  let w := World {[ "out.hpp" := "old" ]} [] ∅ []
             [Succeeds 0; Succeeds 0;
              Fails (Exn (OSError 27) [OSError 27]) 2 0] in
  (write_to_file "out.hpp" "text" w).2 = Raised (Exn (OSError 27) [OSError 27]) /\
  files (write_to_file "out.hpp" "text" w).1 !! "out.hpp" = Some "te".
Proof. split; vm_compute; reflexivity. Qed.

(** ** Determinism *)

(** C5: two emissions with the same banner, started in any two worlds and
    for any two output directories, that both return normally leave the
    same content in their output files: the document determined by the
    banner alone. *)
Theorem generation_deterministic (copyright dir1 dir2 : string) (w1 w2 : world) :
  (generate_RMA_X_header dir1 copyright w1).2 = Returned tt ->
  (generate_RMA_X_header dir2 copyright w2).2 = Returned tt ->
  files (generate_RMA_X_header dir1 copyright w1).1
    !! os_path_join dir1 output_name =
  files (generate_RMA_X_header dir2 copyright w2).1
    !! os_path_join dir2 output_name /\
  files (generate_RMA_X_header dir1 copyright w1).1
    !! os_path_join dir1 output_name = Some (header_content copyright).
Proof.
  intros H1 H2.
  destruct (write_to_file_spec (os_path_join dir1 output_name)
              (header_content copyright) w1) as (_ & _ & _ & _ & F1 & _).
  destruct (write_to_file_spec (os_path_join dir2 output_name)
              (header_content copyright) w2) as (_ & _ & _ & _ & F2 & _).
  unfold generate_RMA_X_header in *. cbv zeta in *.
  rewrite (F1 H1), (F2 H2), !lookup_insert_eq. now split.
Qed.

Lemma generation_deterministic_witness :
  files (generate_RMA_X_header "out" "" empty_world).1
    !! os_path_join "out" output_name =
  files (generate_RMA_X_header "build/" "" stale_world).1
    !! os_path_join "build/" output_name.
Proof.
  exact (proj1 (generation_deterministic "" "out" "build/" empty_world stale_world
                  eq_refl eq_refl)).
Defined.

(** ** Templates on arbitrary arguments *)

Lemma ident_string_app a b :
  ident_string a = true -> ident_string b = true -> ident_string (a +:+ b) = true.
Proof.
  intros Ha Hb. induction a as [|c a IH]; [exact Hb |].
  cbn [ident_string] in Ha. apply andb_true_iff in Ha as [Hc Ha].
  change (String c a +:+ b) with (String c (a +:+ b)).
  cbn [ident_string]. now rewrite Hc, IH.
Qed.

Lemma lex_run_ident s cur out :
  ident_string s = true ->
  lex_run s (LexState LCode cur out) =
    LexState LCode (rev (String.list_ascii_of_string s) ++ cur) out.
Proof.
  revert cur. induction s as [|c s IH]; intros cur H; [reflexivity |].
  cbn [ident_string] in H. apply andb_true_iff in H as [Hc Hs].
  cbn [lex_run String.list_ascii_of_string rev].
  unfold lex_step. cbn [lx_mode lx_cur lx_out]. unfold lex_code. rewrite Hc.
  rewrite IH by exact Hs. now rewrite <- app_assoc.
Qed.

(** After a non-identifier character the lexer is where it would be had
    the pending identifier been a token read earlier. *)
Lemma lex_code_flush cur out c :
  is_ident_char c = false ->
  lex_code cur out c = lx_shift (lx_flush cur out) (lex_code [] [] c).
Proof.
  intros Hc. unfold lex_code, lx_shift. rewrite Hc. cbn [lx_flush].
  destruct (Ascii.eqb c "/"); [reflexivity |].
  destruct (is_space_char c); reflexivity.
Qed.

Lemma tokens_ident_app name rest :
  ident_string name = true -> name <> "" ->
  starts_outside_identifier rest = true ->
  tokens (name +:+ rest) = name :: tokens rest.
Proof.
  intros Hn Hne Hd.
  destruct rest as [|d rest]; [discriminate Hd |].
  cbn [starts_outside_identifier] in Hd. apply negb_true_iff in Hd.
  unfold tokens. rewrite lex_run_app.
  unfold lex_start at 1. rewrite lex_run_ident by exact Hn.
  cbn [lex_run]. unfold lex_step, lex_start. cbn [lx_mode lx_cur lx_out].
  rewrite lex_code_flush by exact Hd.
  rewrite lex_run_shift, lex_finish_shift.
  rewrite app_nil_r. unfold lx_flush.
  destruct (rev (String.list_ascii_of_string name)) eqn:E.
  - apply (f_equal (@rev _)) in E. rewrite rev_involutive in E.
    destruct name; [now contradiction Hne | discriminate E].
  - rewrite <- E, rev_involutive, String.string_of_list_ascii_of_string.
    reflexivity.
Qed.

Lemma tokens_spaced T rest :
  ends_in_code T = true ->
  tokens (T +:+ String " " rest) = tokens T ++ tokens rest.
Proof.
  unfold ends_in_code, tokens. intros H. rewrite lex_run_app.
  destruct (lex_run T lex_start) as [m cur out]. cbn [lx_mode] in H.
  destruct m; try discriminate H.
  cbn [lex_run]. unfold lex_step at 1. cbn [lx_mode lx_cur lx_out].
  change (lex_code cur out " ") with (lx_shift (lx_flush cur out) lex_start).
  rewrite lex_run_shift, lex_finish_shift. reflexivity.
Qed.

Lemma api_x_template_tokens (fragment GRAN T TNAME : string) :
  ident_string fragment = true -> ident_string GRAN = true ->
  ident_string TNAME = true -> ends_in_code T = true ->
  tokens (api_x_template fragment GRAN T TNAME) =
    prototype_tokens true (template_ctx_symbol fragment GRAN TNAME) T ++
    prototype_tokens false (template_default_symbol fragment GRAN TNAME) T.
Proof.
  intros Hf Hg Hn Ht.
  set (P := "__device__ ATTR_NO_INLINE void ").
  set (L2 := "(" +:+ nl +:+ "    rocshmem_ctx_t ctx, ").
  set (L3 := "*dest, const ").
  set (L4 := "*source," +:+ nl +:+ "    size_t nelems, int pe);" +:+ nl +:+ P).
  set (L5 := "(" +:+ nl +:+ "    ").
  set (L6 := "*source, size_t nelems, int pe);" +:+ nl +:+ nl).
  assert (Hnf : api_x_template fragment GRAN T TNAME =
    P +:+ template_ctx_symbol fragment GRAN TNAME +:+ L2 +:+
    T +:+ String " " (L3 +:+ T +:+ String " " (L4 +:+
    template_default_symbol fragment GRAN TNAME +:+ L5 +:+
    T +:+ String " " (L3 +:+ T +:+ String " " L6)))).
  { unfold api_x_template, template_ctx_symbol, template_default_symbol.
    rewrite !string_app_assoc. reflexivity. }
  assert (Hc : ident_string (template_ctx_symbol fragment GRAN TNAME) = true).
  { unfold template_ctx_symbol. repeat apply ident_string_app; auto. }
  assert (Hd : ident_string (template_default_symbol fragment GRAN TNAME) = true).
  { unfold template_default_symbol. repeat apply ident_string_app; auto. }
  rewrite Hnf.
  rewrite (tokens_app P _ eq_refl).
  rewrite (tokens_ident_app _ _ Hc); [| discriminate | reflexivity].
  rewrite (tokens_app L2 _ eq_refl), (tokens_spaced _ _ Ht).
  rewrite (tokens_app L3 _ eq_refl), (tokens_spaced _ _ Ht).
  rewrite (tokens_app L4 _ eq_refl).
  rewrite (tokens_ident_app _ _ Hd); [| discriminate | reflexivity].
  rewrite (tokens_app L5 _ eq_refl), (tokens_spaced _ _ Ht).
  rewrite (tokens_app L3 _ eq_refl), (tokens_spaced _ _ Ht).
  unfold prototype_tokens.
  change (tokens P) with ["__device__"; "ATTR_NO_INLINE"; "void"].
  change (tokens L2) with ["("; "rocshmem_ctx_t"; "ctx"; ","].
  change (tokens L3) with ["*"; "dest"; ","; "const"].
  change (tokens L4) with
    ["*"; "source"; ","; "size_t"; "nelems"; ","; "int"; "pe"; ")"; ";";
     "__device__"; "ATTR_NO_INLINE"; "void"].
  change (tokens L5) with ["("].
  change (tokens L6) with
    ["*"; "source"; ","; "size_t"; "nelems"; ","; "int"; "pe"; ")"; ";"].
  repeat (progress (cbn [app]; rewrite <- ?List.app_assoc)).
  reflexivity.
Qed.

Lemma api_x_is_template (f : family) (GRAN T TNAME : string) :
  api_x f GRAN T TNAME = api_x_template (family_fragment f) GRAN T TNAME.
Proof. destruct f; reflexivity. Qed.

(** X1: for every family, every tag and short name made of identifier
    characters and every type spelling that leaves no comment open, the
    template text reads as the two prototypes of the convention: the table
    rows are not special. *)
Theorem api_x_prototypes (f : family) (GRAN T TNAME : string) :
  ident_string GRAN = true -> ident_string TNAME = true ->
  ends_in_code T = true ->
  tokens (api_x f GRAN T TNAME) =
    prototype_tokens true
      (template_ctx_symbol (family_fragment f) GRAN TNAME) T ++
    prototype_tokens false
      (template_default_symbol (family_fragment f) GRAN TNAME) T.
Proof.
  intros Hg Hn Ht. rewrite api_x_is_template.
  apply api_x_template_tokens; auto. destruct f; reflexivity.
Qed.

Lemma api_x_prototypes_witness :
  tokens (api_x GetNonBlocking "block" "unsigned  __int128" "uint128") =
    prototype_tokens true "rocshmem_ctx_uint128_get_nbi_block" "unsigned  __int128" ++
    prototype_tokens false "rocshmem_uint128_get_nbi_block" "unsigned  __int128".
Proof.
  exact (api_x_prototypes GetNonBlocking "block" "unsigned  __int128" "uint128"
           eq_refl eq_refl eq_refl).
Defined.

(** ** Injectivity of the templates *)

Lemma string_length_app (a b : string) :
  String.length (a +:+ b) = String.length a + String.length b.
Proof.
  induction a as [|c a IH]; [reflexivity |].
  change (String c a +:+ b) with (String c (a +:+ b)).
  cbn [String.length]. now rewrite IH.
Qed.

Lemma string_app_inv_head (a x y : string) : a +:+ x = a +:+ y -> x = y.
Proof.
  induction a as [|c a IH]; [trivial |].
  change (String c (a +:+ x) = String c (a +:+ y) -> x = y).
  intros [= H]. exact (IH H).
Qed.

Lemma string_app_inj_length (a b x y : string) :
  String.length a = String.length b ->
  a +:+ x = b +:+ y -> a = b /\ x = y.
Proof.
  revert b. induction a as [|c a IH]; intros [|d b] Hl; try discriminate Hl.
  - intros H. now split.
  - change (String c (a +:+ x) = String d (b +:+ y) -> String c a = String d b /\ x = y).
    intros [= -> H]. injection Hl as Hl.
    destruct (IH b Hl H) as [-> ->]. now split.
Qed.

(** A text is cut at its first underscore in one way only. *)
Lemma underscore_split (a1 a2 r1 r2 : string) :
  no_underscore a1 = true -> no_underscore a2 = true ->
  a1 +:+ String "_" r1 = a2 +:+ String "_" r2 -> a1 = a2 /\ r1 = r2.
Proof.
  revert a2. induction a1 as [|c a1 IH]; intros [|d a2] H1 H2.
  - intros [= ->]. now split.
  - change (String "_" r1 = String d (a2 +:+ String "_" r2) -> "" = String d a2 /\ r1 = r2).
    intros [= <- _]. discriminate H2.
  - change (String c (a1 +:+ String "_" r1) = String "_" r2 -> String c a1 = "" /\ r1 = r2).
    intros [= -> _]. discriminate H1.
  - change (String c (a1 +:+ String "_" r1) = String d (a2 +:+ String "_" r2) ->
            String c a1 = String d a2 /\ r1 = r2).
    intros [= -> H].
    cbn [no_underscore] in H1, H2.
    apply andb_true_iff in H1 as [_ H1]. apply andb_true_iff in H2 as [_ H2].
    destruct (IH a2 H1 H2 H) as [-> ->]. now split.
Qed.

Lemma fragment_tag_inj (f1 f2 : family) (g1 g2 : granularity) (x y : string) :
  family_fragment f1 +:+ "_" +:+ gran_tag g1 +:+ "(" +:+ x =
  family_fragment f2 +:+ "_" +:+ gran_tag g2 +:+ "(" +:+ y ->
  f1 = f2 /\ g1 = g2.
Proof.
  destruct f1, f2, g1, g2; intros H; try (split; reflexivity);
    exfalso; vm_compute in H; discriminate H.
Qed.

(** X2: on short names without underscore the templates are injective:
    equal texts come from the same family, granularity, type spelling and
    short name. *)
Theorem api_x_injective (f1 f2 : family) (g1 g2 : granularity)
    (T1 T2 TNAME1 TNAME2 : string) :
  no_underscore TNAME1 = true -> no_underscore TNAME2 = true ->
  api_x f1 (gran_tag g1) T1 TNAME1 = api_x f2 (gran_tag g2) T2 TNAME2 ->
  f1 = f2 /\ g1 = g2 /\ T1 = T2 /\ TNAME1 = TNAME2.
Proof.
  intros H1 H2 H. rewrite !api_x_is_template in H.
  pose proof (f_equal String.length H) as Hlen.
  unfold api_x_template in H.
  apply (string_app_inv_head "__device__ ATTR_NO_INLINE void rocshmem_ctx_") in H.
  apply (underscore_split _ _ _ _ H1 H2) in H as [-> H].
  destruct (fragment_tag_inj _ _ _ _ _ _ H) as [-> ->].
  do 6 (apply string_app_inv_head in H).
  assert (Hl : String.length T1 = String.length T2).
  { unfold api_x_template in Hlen. rewrite !string_length_app in Hlen.
    cbn [String.length nl] in Hlen. lia. }
  destruct (string_app_inj_length _ _ _ _ Hl H) as [-> _].
  repeat split; reflexivity.
Qed.

Lemma api_x_injective_witness :
  Put = Put /\ PerWave = PerWave /\ "__half" = "__half" /\ "half" = "half".
Proof.
  exact (api_x_injective Put Put PerWave PerWave "__half" "__half" "half" "half"
           eq_refl eq_refl eq_refl).
Defined.

(** ** Ambiguity outside the table *)

(** X3: the templates do not check their arguments, and without that
    restriction two different (tag, short name) pairs give the same text:
    a short name that ends in _<fragment>_<b> is read as the tag
    <b>_<fragment>_<tag>. *)
Theorem api_x_collision (f : family) (a b GRAN T : string) :
  api_x f (b +:+ "_" +:+ family_fragment f +:+ "_" +:+ GRAN) T a =
  api_x f GRAN T (a +:+ "_" +:+ family_fragment f +:+ "_" +:+ b) /\
  a <> a +:+ "_" +:+ family_fragment f +:+ "_" +:+ b.
Proof.
  split.
  - rewrite !api_x_is_template. unfold api_x_template.
    rewrite !string_app_assoc. reflexivity.
  - intros E. apply (f_equal String.length) in E.
    rewrite !string_length_app in E. cbn [String.length] in E. lia.
Qed.

(** ** The document, token by token *)

Lemma list_eqb_str_sound (l1 l2 : list string) :
  list_eqb_str l1 l2 = true -> l1 = l2.
Proof.
  revert l2. induction l1 as [|x l1 IH]; intros [|y l2] H; try discriminate H.
  - reflexivity.
  - cbn [list_eqb_str] in H. apply andb_true_iff in H as [Hx Hl].
    apply String.eqb_eq in Hx. now rewrite Hx, (IH l2 Hl).
Qed.

Lemma family_blocks_tokens_check :
  list_eqb_str (tokens family_blocks) declarations_tokens = true.
Proof. vm_compute. reflexivity. Qed.

(** X4: the text after the banner is, token for token, the include guard
    and namespace opening, the two prototypes of every (family,
    granularity, type) triple in generation order, and the closing brace
    and #endif: the documentation blocks contribute no token.  After a
    banner that ends between tokens the document is the banner's tokens
    followed by these. *)
Theorem document_token_sequence (copyright : string) :
  tokens (header_content "") =
    ["#"; "ifndef"; guard_macro; "#"; "define"; guard_macro;
     "namespace"; "rocshmem"; "{"] ++
    declarations_tokens ++
    ["}"; "#"; "endif"] /\
  (lex_clean copyright = true ->
   tokens (header_content copyright) =
     tokens copyright ++
     ["#"; "ifndef"; guard_macro; "#"; "define"; guard_macro;
      "namespace"; "rocshmem"; "{"] ++
     declarations_tokens ++
     ["}"; "#"; "endif"]).
Proof.
  assert (E : tokens (header_content "") =
    ["#"; "ifndef"; guard_macro; "#"; "define"; guard_macro;
     "namespace"; "rocshmem"; "{"] ++
    declarations_tokens ++ ["}"; "#"; "endif"]).
  { rewrite header_tokens, guard_open_tokens, guard_close_tokens.
    now rewrite (list_eqb_str_sound _ _ family_blocks_tokens_check). }
  split; [exact E |].
  intros H. rewrite (tokens_header_content _ H), E. reflexivity.
Qed.

Lemma family_block_check_true (f : family) : family_block_check f = true.
Proof. destruct f; vm_compute; reflexivity. Qed.

(** X8: each family block on its own ends between tokens and reads as the
    prototypes of its 26 declaration units, per-wave first, in table
    order; its two documentation blocks are comments and add no token. *)
Theorem family_block_tokens (f : family) :
  lex_clean (family_block f) = true /\
  tokens (family_block f) = family_tokens f.
Proof.
  pose proof (family_block_check_true f) as H.
  unfold family_block_check in H. apply andb_true_iff in H as [Hc Ht].
  split; [exact Hc | exact (list_eqb_str_sound _ _ Ht)].
Qed.

(** ** The banner can be read back *)

Lemma string_app_inv_tail (a b s : string) : a +:+ s = b +:+ s -> a = b.
Proof.
  intros H.
  assert (Hl : String.length a = String.length b).
  { apply (f_equal String.length) in H. rewrite !string_length_app in H. lia. }
  exact (proj1 (string_app_inj_length _ _ _ _ Hl H)).
Qed.

(** X5: the banner can be read back from the document: two banners that
    give the same document are the same banner. *)
Theorem header_content_injective (c1 c2 : string) :
  header_content c1 = header_content c2 -> c1 = c2.
Proof.
  intros H.
  rewrite (header_content_banner c1), (header_content_banner c2) in H.
  exact (string_app_inv_tail _ _ _ H).
Qed.

Lemma header_content_injective_witness : "/* a */" = "/* a */".
Proof. exact (header_content_injective "/* a */" "/* a */" eq_refl). Defined.

(** ** More on the emitter *)

(** X7: two emissions in a row into the same directory that both return
    normally leave the file system as the second alone would have, with the
    descriptors in use unchanged; with the same banner the second changes
    nothing. *)
Theorem regeneration_last_wins (output_dir c1 c2 : string) (w : world) :
  let r1 := generate_RMA_X_header output_dir c1 w in
  let r2 := generate_RMA_X_header output_dir c2 r1.1 in
  r1.2 = Returned tt -> r2.2 = Returned tt ->
  files r2.1 =
    <[os_path_join output_dir output_name := header_content c2]> (files w) /\
  open_files r2.1 = open_files w /\
  (c1 = c2 -> files r2.1 = files r1.1).
Proof.
  cbv zeta. unfold generate_RMA_X_header. cbv zeta.
  intros R1 R2.
  destruct (write_to_file_spec (os_path_join output_dir output_name)
              (header_content c1) w) as (_ & O1 & _ & _ & F1 & _).
  destruct (write_to_file_spec (os_path_join output_dir output_name)
              (header_content c2)
              (write_to_file (os_path_join output_dir output_name)
                 (header_content c1) w).1) as (_ & O2 & _ & _ & F2 & _).
  cbv zeta in O1, O2, F1, F2.
  specialize (F1 R1). specialize (F2 R2).
  rewrite F2, O2, O1, F1, insert_insert_eq.
  split; [reflexivity |]. split; [reflexivity |].
  intros ->. reflexivity.
Qed.

Lemma regeneration_last_wins_witness :
  files (generate_RMA_X_header "out" "/* b */"
           (generate_RMA_X_header "out" "/* a */" stale_world).1).1 =
  <[os_path_join "out" output_name := header_content "/* b */"]>
    (files stale_world).
Proof.
  exact (proj1 (regeneration_last_wins "out" "/* a */" "/* b */" stale_world
                  eq_refl eq_refl)).
Defined.
